(** * The in-page content editor of [src/index.tsx]

    A shallow embedding of the content-override mechanism of the page:
    the React state of [App] (edit mode flag, override table, item being
    edited), the handlers that [App] publishes through [EditContext], the
    two editable components and the state of [EditModal] (its scratch
    value, re-seeded by a [useEffect]). Around it: how [EditableText]
    renders its text line by line, the keys of [SectionHeading], the
    navigation between pages and the contact form.

    Conventions.
    - [content : Record<string, string>] is a plain object: its own
      properties are a finite map from strings to strings, and a read
      [content[id]] of a key without an own property finds the member of
      [Object.prototype] of that name, if there is one ([js_get]).
    - [a || b] on a possibly-undefined string is [js_or]: JavaScript takes
      [b] when [a] is [undefined] or the empty string.
    - A React state cell is a field of a record; a handler is a function
      from state to state; one user event runs one handler and is followed
      by one render, after which the effects whose dependencies changed
      are run. *)

From stdpp Require Import gmap strings list fin_maps.

Open Scope string_scope.

(** ** Types *)

(** [type EditType = 'text' | 'image'] *)
Inductive EditType : Set := text | image.

#[global] Instance EditType_eq_dec : EqDecision EditType.
Proof. solve_decision. Defined.

(** [interface EditItem { id: string; value: string; type: EditType }] *)
Module EditItem.
Record t : Set := mk { id : string; value : string; type : EditType }.

End EditItem.

(** ** JavaScript's [||] on strings *)

(** [a || b] where [a] is a string or [undefined]: the empty string and
    [undefined] are falsy, every other string is truthy. *)
Definition js_or (a : option string) (b : string) : string :=
  match a with
  | Some "" => b
  | Some s => s
  | None => b
  end.

(** [!!x] for an object reference that may be [null]. *)
Definition js_truthy {A : Type} (x : option A) : bool :=
  match x with
  | Some _ => true
  | None => false
  end.

(** ** Reading a plain object *)

(** The names of the properties of [Object.prototype]. Every object
    literal inherits them: [({})["toString"]] is a function, not
    [undefined]. *)
Definition Object_prototype_members : list string :=
  ["constructor"; "__defineGetter__"; "__defineSetter__"; "hasOwnProperty";
   "__lookupGetter__"; "__lookupSetter__"; "isPrototypeOf"; "propertyIsEnumerable";
   "toString"; "valueOf"; "__proto__"; "toLocaleString"].

(** What a read of the store can give: a string, or the member of
    [Object.prototype] of the name that was read (a function, or
    [Object.prototype] itself for [__proto__]); never a string. *)
Inductive JsValue : Set :=
  | JsString (s : string)
  | JsInherited (member : string).

(** [content[id]] on the object whose own properties are [content]: the own
    property if there is one, else the inherited member if [id] names one,
    else [undefined]. *)
Definition js_get (content : gmap string string) (id : string) : option JsValue :=
  match content !! id with
  | Some s => Some (JsString s)
  | None =>
      if bool_decide (id ∈ Object_prototype_members) then Some (JsInherited id) else None
  end.

(** [a || b] where [a] was read from the store: functions and objects are
    truthy. *)
Definition js_or_value (a : option JsValue) (b : string) : JsValue :=
  match a with
  | Some (JsString "") => JsString b
  | Some v => v
  | None => JsString b
  end.

(** ** The state of [App] *)

(** The three [useState] cells of [App]. *)
Record App : Type := mkApp {
  isEditMode : bool;
  content : gmap string string;
  editingItem : option EditItem.t
}.

(** [setContent(prev => ({ ...prev, [key]: value }))] *)
Definition updateContent (key value : string) (st : App) : App :=
  mkApp (isEditMode st) (<[key := value]> (content st)) (editingItem st).

(** [if (window.confirm(...)) setContent({})]; the operator's answer to the
    confirmation box is the argument [confirmed]. *)
Definition resetContent (confirmed : bool) (st : App) : App :=
  if confirmed then mkApp (isEditMode st) ∅ (editingItem st) else st.

(** [setEditingItem({ id, value: initialValue, type })] *)
Definition openEditor (id initialValue : string) (type : EditType) (st : App) : App :=
  mkApp (isEditMode st) (content st) (Some (EditItem.mk id initialValue type)).

(** [if (editingItem) { updateContent(editingItem.id, value); setEditingItem(null) }] *)
Definition handleSaveEdit (value : string) (st : App) : App :=
  match editingItem st with
  | Some item =>
      let st' := updateContent (EditItem.id item) value st in
      mkApp (isEditMode st') (content st') None
  | None => st
  end.

(** [toggleEditMode: () => setIsEditMode(!isEditMode)] *)
Definition toggleEditMode (st : App) : App :=
  mkApp (negb (isEditMode st)) (content st) (editingItem st).

(** [onClose={() => setEditingItem(null)}] *)
Definition onClose (st : App) : App :=
  mkApp (isEditMode st) (content st) None.

(** ** The editable components *)

(** The cells of [App], [EditItem] and [EditModal] hold strings, as they
    are declared. A click on a slot whose value is an inherited member
    would hand a function to [openEditor] (and [useState]'s setter would
    call it): that click is outside this model, and [handleClick] returns
    [None] for it. *)

Module EditableText.
(** [const currentText = content[id] || defaultText] *)
Definition currentText (content : gmap string string) (id defaultText : string) : JsValue :=
  js_or_value (js_get content id) defaultText.

(** [if (!isEditMode) return; ...; openEditor(id, currentText, 'text')] *)
Definition handleClick (id defaultText : string) (st : App) : option App :=
  if negb (isEditMode st) then Some st
  else match currentText (content st) id defaultText with
       | JsString s => Some (openEditor id s text st)
       | JsInherited _ => None
       end.
End EditableText.

Module EditableImage.
(** [const currentSrc = content[id] || defaultSrc] *)
Definition currentSrc (content : gmap string string) (id defaultSrc : string) : JsValue :=
  js_or_value (js_get content id) defaultSrc.

(** [if (!isEditMode) return; ...; openEditor(id, currentSrc, 'image')] *)
Definition handleClick (id defaultSrc : string) (st : App) : option App :=
  if negb (isEditMode st) then Some st
  else match currentSrc (content st) id defaultSrc with
       | JsString s => Some (openEditor id s image st)
       | JsInherited _ => None
       end.
End EditableImage.

(** [const DEFAULT_IMAGES = { hero: ..., exterior: ..., ... }] *)
Module DEFAULT_IMAGES.
Definition hero : string := "https://loremflickr.com/1600/900/architect,man".
Definition exterior : string := "https://loremflickr.com/1600/900/apartment,building".
Definition chart : string := "https://loremflickr.com/1600/900/chart,finance".
Definition profile : string := "https://loremflickr.com/1600/900/portrait,business".
Definition consulting : string := "https://loremflickr.com/1600/900/meeting,consulting".
End DEFAULT_IMAGES.

(** The hero background button of [MainPage]:
    [{isEditMode && <button onClick={() => openEditor('hero_img',
    content['hero_img'] || DEFAULT_IMAGES.hero, 'image')} />}]. The key
    [hero_img] names no inherited member, so the read is the own property
    or [undefined]. *)
Module MainPage.
Definition heroButton_onClick (st : App) : App :=
  openEditor "hero_img" (js_or (content st !! "hero_img") DEFAULT_IMAGES.hero) image st.
End MainPage.

(** ** The props that [App] hands to [EditModal] *)

(** [isOpen={!!editingItem}] *)
Definition isOpen (st : App) : bool := js_truthy (editingItem st).

(** [initialValue={editingItem?.value || ''}] *)
Definition initialValue (st : App) : string :=
  js_or (EditItem.value <$> editingItem st) "".

(** [type={editingItem?.type || 'text'}]; both members of [EditType] are
    non-empty strings, so the fall-back is taken only on [undefined]. *)
Definition modalType (st : App) : EditType :=
  from_option EditItem.type text (editingItem st).

(** ** The whole page: [App], [EditModal] and the file reads in flight *)

(** [modal_value] is the [useState] cell [value] of [EditModal] (the scratch
    value of the dialog). [EditModal] is rendered by [App] on every render,
    open or not ([if (!isOpen) return null] comes after the hooks), so the
    cell lives as long as the page. [pending] holds the [FileReader]s whose
    [readAsDataURL] has been started and whose [onloadend] has not fired
    yet, each one by the data URL it will deliver as [reader.result]. *)
Record UI : Type := mkUI {
  app : App;
  modal_value : string;
  pending : list string
}.

(** State of the page after the first render: [useState(false)],
    [useState({})], [useState(null)], and [useState(initialValue)] with
    [initialValue = ''] in [EditModal]. *)
Definition init : UI := mkUI (mkApp false ∅ None) "" [].

(** The dependency array [[initialValue, isOpen]] of the effect of
    [EditModal]. *)
Definition effect_deps (st : App) : string * bool := (initialValue st, isOpen st).

(** [useEffect(() => { setValue(initialValue) }, [initialValue, isOpen])]:
    after a render, the effect runs when one of its dependencies differs
    from its value at the previous render. [prev] is the state of [App] at
    the previous render. *)
Definition useEffect_seed (prev : App) (ui : UI) : UI :=
  if decide (effect_deps prev = effect_deps (app ui)) then ui
  else mkUI (app ui) (initialValue (app ui)) (pending ui).

(** What can happen to the page. *)
Inductive Event : Type :=
  | ClickToggle                               (* floating button, [onClick={toggleEditMode}] *)
  | ClickReset (confirmed : bool)             (* floating button, [onClick={resetContent}] *)
  | ClickText (id defaultText : string)       (* an [EditableText], [onClick={handleClick}] *)
  | ClickImage (id defaultSrc : string)       (* an [EditableImage], [onClick={handleClick}] *)
  | ClickHeroButton                           (* background button of [MainPage] *)
  | CallOpenEditor (id initialValue : string) (type : EditType)
                                              (* [useEdit().openEditor(...)] *)
  | CallUpdateContent (key value : string)    (* [useEdit().updateContent(...)] *)
  | ModalChange (v : string)                  (* textarea or input, [onChange] *)
  | ClickX                                    (* header button, [onClick={onClose}] *)
  | ClickCancel                               (* footer button, [onClick={onClose}] *)
  | ClickSave                                 (* footer button, [onClick={() => onSave(value)}] *)
  | ClickOverlay                              (* the backdrop [div]: no handler *)
  | PressEscape                               (* no key handler anywhere *)
  | FileChange (file : option string)         (* file input, [onChange={handleFileChange}] *)
  | Loadend (i : nat).                        (* [reader.onloadend] of the [i]-th read in flight *)

Definition with_app (f : App -> App) (ui : UI) : UI :=
  mkUI (f (app ui)) (modal_value ui) (pending ui).

(** [setValue(v)] *)
Definition setValue (v : string) (ui : UI) : UI :=
  mkUI (app ui) v (pending ui).

(** [handleFileChange]: [const file = e.target.files?.[0]; if (file) { ...
    reader.onloadend = () => setValue(reader.result as string);
    reader.readAsDataURL(file) }]. No state cell changes; a read is started. *)
Definition handleFileChange (file : option string) (ui : UI) : UI :=
  match file with
  | Some dataURL => mkUI (app ui) (modal_value ui) (pending ui ++ [dataURL])
  | None => ui
  end.

(** [reader.onloadend = () => { setValue(reader.result as string) }] *)
Definition onloadend (i : nat) (ui : UI) : UI :=
  match pending ui !! i with
  | Some result => setValue result (mkUI (app ui) (modal_value ui) (delete i (pending ui)))
  | None => ui
  end.

(** The handler an event runs. An element that is not rendered cannot be
    clicked: the reset and hero buttons are rendered under [isEditMode &&],
    the controls of the dialog after [if (!isOpen) return null], the file
    input in the [image] branch only. A click outside the model (see
    [handleClick]) is not part of a run and leaves the state alone. *)
Definition handle (e : Event) (ui : UI) : UI :=
  let st := app ui in
  match e with
  | ClickToggle => with_app toggleEditMode ui
  | ClickReset confirmed =>
      if isEditMode st then with_app (resetContent confirmed) ui else ui
  | ClickText id defaultText =>
      match EditableText.handleClick id defaultText st with
      | Some st' => with_app (fun _ => st') ui
      | None => ui
      end
  | ClickImage id defaultSrc =>
      match EditableImage.handleClick id defaultSrc st with
      | Some st' => with_app (fun _ => st') ui
      | None => ui
      end
  | ClickHeroButton =>
      if isEditMode st then with_app MainPage.heroButton_onClick ui else ui
  | CallOpenEditor id v ty => with_app (openEditor id v ty) ui
  | CallUpdateContent key value => with_app (updateContent key value) ui
  | ModalChange v => if isOpen st then setValue v ui else ui
  | ClickX => if isOpen st then with_app onClose ui else ui
  | ClickCancel => if isOpen st then with_app onClose ui else ui
  | ClickSave => if isOpen st then with_app (handleSaveEdit (modal_value ui)) ui else ui
  | ClickOverlay => ui
  | PressEscape => ui
  | FileChange file =>
      if isOpen st && bool_decide (modalType st = image) then handleFileChange file ui else ui
  | Loadend i => onloadend i ui
  end.

(** One event: its handler, then the render and the effect of [EditModal]. *)
Definition step (e : Event) (ui : UI) : UI :=
  useEffect_seed (app ui) (handle e ui).

(** A sequence of events, first event first. *)
Definition run (es : list Event) (ui : UI) : UI := foldl (fun s e => step e s) ui es.

(** ** Specification vocabulary *)

(** The Content Store of the specification is the [content] cell; its
    [get(key)] with the default of the call site is [currentText] (text
    slots) or [currentSrc] (image slots), its [set] is [updateContent], its
    [resetAll] is [resetContent]. *)

(** Event [e], arriving in state [ui], performs a [set(k, _)] or an
    effective reset of the store. *)
Definition writes (k : string) (e : Event) (ui : UI) : bool :=
  match e with
  | ClickSave =>
      match editingItem (app ui) with
      | Some item => bool_decide (EditItem.id item = k)
      | None => false
      end
  | CallUpdateContent key _ => bool_decide (key = k)
  | ClickReset confirmed => confirmed && isEditMode (app ui)
  | _ => false
  end.

(** No event of [es], run from [ui], is a [set(k, _)] or an effective
    reset. *)
Fixpoint quiet (k : string) (es : list Event) (ui : UI) : bool :=
  match es with
  | [] => true
  | e :: es' => negb (writes k e ui) && quiet k es' (step e ui)
  end.

(** The events that only feed the scratch value of the dialog: typing, 
    choosing a file, the end of a file read. *)
Definition is_scratch_event (e : Event) : bool :=
  match e with
  | ModalChange _ | FileChange _ | Loadend _ => true
  | _ => false
  end.

(** Events that start or end a file read. *)
Definition is_read_event (e : Event) : bool :=
  match e with
  | FileChange _ | Loadend _ => true
  | _ => false
  end.

(** The requirement of the specification on a read that ends after its
    dialog was closed. A read of [file] is started in the open dialog
    reached by [before] (no other read is in flight), the dialog is
    cancelled, the events [after] follow (none of them starts or ends a
    read), and then the read ends. The result is discarded when this last
    event leaves the store and the active edit alone and does not touch
    the scratch value of a dialog that is open by then. *)
Definition stale_read_discarded : Prop :=
  ∀ (before after : list Event) (file : string),
    let started := step (FileChange (Some file)) (run before init) in
    let later := run after (step ClickCancel started) in
    isOpen (app (run before init)) = true →
    pending (run before init) = [] →
    pending started = [file] →
    forallb (λ e, negb (is_read_event e)) after = true →
    content (app (step (Loadend 0) later)) = content (app later) ∧
    editingItem (app (step (Loadend 0) later)) = editingItem (app later) ∧
    (isOpen (app later) = true →
       modal_value (step (Loadend 0) later) = modal_value later).

(** The active edits of a state, as a list. *)
Definition activeEdits (st : App) : list EditItem.t := option_list (editingItem st).

(** A call of [openEditor], by its arguments. *)
Definition openCall (c : string * string * EditType) (st : App) : App :=
  openEditor c.1.1 c.1.2 c.2 st.

(** ** How [EditableText] renders its text *)

(** [s.split(sep)] for a separator [sep] of one character: the pieces of
    [s] between the occurrences of [sep], in order; never an empty array
    (the empty string gives one empty piece). *)
Fixpoint js_split (sep : Ascii.ascii) (s : string) : list string :=
  match s with
  | "" => [""]
  | String c s' =>
      if decide (c = sep) then "" :: js_split sep s'
      else match js_split sep s' with
           | piece :: pieces => String c piece :: pieces
           | [] => [String c ""]
           end
  end.

(** The character of ['\n']. *)
Definition newline : Ascii.ascii := Ascii.ascii_of_nat 10.

(** What [EditableText] puts inside its tag: text and [<br />] elements. *)
Inductive Node : Set :=
  | TextNode (s : string)
  | Br.

Module EditableTextView.
(** [<React.Fragment key={i}>{line}{i < currentText.split('\n').length - 1
    && <br />}</React.Fragment>], with [len] the length of the split. *)
Definition fragment (len : nat) (i : nat) (line : string) : list Node :=
  TextNode line :: (if (Z.of_nat i <? Z.of_nat len - 1)%Z then [Br] else []).

(** [currentText.split('\n').map((line, i) => ...)] *)
Definition children (currentText : string) : list (list Node) :=
  imap (fragment (length (js_split newline currentText))) (js_split newline currentText).

(** The children of the [EditableText] of slot [id] under a store; [None]
    when [currentText] is not a string: [currentText.split] is then not a
    function and the render throws. *)
Definition view (content : gmap string string) (id defaultText : string)
    : option (list (list Node)) :=
  match EditableText.currentText content id defaultText with
  | JsString s => Some (children s)
  | JsInherited _ => None
  end.
End EditableTextView.

(** The text a reader sees: the text nodes in order, a line break for each
    [<br />]. *)
Definition node_text (n : Node) : string :=
  match n with
  | TextNode s => s
  | Br => String newline ""
  end.

Fixpoint text_of (ns : list Node) : string :=
  match ns with
  | [] => ""
  | n :: ns' => node_text n ++ text_of ns'
  end.

Fixpoint count_char (c : Ascii.ascii) (s : string) : nat :=
  match s with
  | "" => 0
  | String c' s' => (if decide (c' = c) then 1 else 0) + count_char c s'
  end.

Definition is_br (n : Node) : bool :=
  match n with
  | Br => true
  | TextNode _ => false
  end.

(** ** [SectionHeading] and the keys of its two slots *)

Module SectionHeading.
(** [id={`${idPrefix}_subtitle`}] *)
Definition subtitleId (idPrefix : string) : string := idPrefix ++ "_subtitle".

(** [id={`${idPrefix}_title`}] *)
Definition titleId (idPrefix : string) : string := idPrefix ++ "_title".

(** The editable slots of a heading, each with its default:
    [{subtitle && <EditableText id=... defaultText={subtitle} />}] (an
    absent or empty subtitle renders no slot), then the title. *)
Definition slots (idPrefix title : string) (subtitle : option string) : list (string * string) :=
  match subtitle with
  | Some "" => []
  | Some s => [(subtitleId idPrefix, s)]
  | None => []
  end ++ [(titleId idPrefix, title)].
End SectionHeading.

(** ** Pages, navigation and the contact form *)

(** [type Page = 'main' | 'analysis' | 'investment' | 'profile' | 'contact'] *)
Inductive Page : Set := main | analysis | investment | profile | contact.

#[global] Instance Page_eq_dec : EqDecision Page.
Proof. solve_decision. Defined.

Module Header.
(** [const navItems: { id: Page; label: string }[]] *)
Definition navItems : list (Page * string) :=
  [(main, "홈"); (analysis, "상세분석"); (investment, "가치분석");
   (profile, "전문가소개"); (contact, "상담문의")].

(** The nav button of an item is highlighted when
    [currentPage === item.id]. *)
Definition highlighted (currentPage : Page) (item : Page * string) : bool :=
  bool_decide (currentPage = item.1).
End Header.

Module Footer.
(** The pages of the four quick links. *)
Definition links : list Page := [analysis; investment; profile; contact].
End Footer.

Module ContactPage.
(** [useState({ name: '', phone: '', time: '', type: '84A' })] *)
Record FormData : Set := mkFormData {
  name : string;
  phone : string;
  time : string;
  type : string
}.

(** The two [useState] cells of [ContactPage]. *)
Record State : Set := mkState {
  formData : FormData;
  submitted : bool
}.

Definition initial : State := mkState (mkFormData "" "" "" "84A") false.

(** [['84A', '84B', '107', '125']], one button each. *)
Definition types : list string := ["84A"; "84B"; "107"; "125"].

Inductive Event : Set :=
  | ChangeName (v : string)     (* [onChange] of the name input *)
  | ChangePhone (v : string)    (* [onChange] of the phone input *)
  | ChangeTime (v : string)     (* [onChange] of the date input *)
  | ClickType (i : nat)         (* the [i]-th button of [types] *)
  | Submit                      (* the submit button of the form *)
  | ClickAgain.                 (* [onClick={() => setSubmitted(false)}] *)

(** [e.preventDefault(); setSubmitted(true)] *)
Definition handleSubmit (st : State) : State := mkState (formData st) true.

(** The inputs of name and phone carry [required]: the browser delivers the
    submit event to [onSubmit] only when both are filled in. *)
Definition required_filled (f : FormData) : bool :=
  negb (bool_decide (name f = "")) && negb (bool_decide (phone f = "")).

(** The form is rendered when [!submitted], the confirmation with its
    button otherwise. *)
Definition step (e : Event) (st : State) : State :=
  let f := formData st in
  match e with
  | ChangeName v =>
      if submitted st then st
      else mkState (mkFormData v (phone f) (time f) (type f)) (submitted st)
  | ChangePhone v =>
      if submitted st then st
      else mkState (mkFormData (name f) v (time f) (type f)) (submitted st)
  | ChangeTime v =>
      if submitted st then st
      else mkState (mkFormData (name f) (phone f) v (type f)) (submitted st)
  | ClickType i =>
      if submitted st then st
      else match types !! i with
           | Some t => mkState (mkFormData (name f) (phone f) (time f) t) (submitted st)
           | None => st
           end
  | Submit =>
      if submitted st then st
      else if required_filled f then handleSubmit st else st
  | ClickAgain =>
      if submitted st then mkState f false else st
  end.

Definition run (es : list Event) (st : State) : State := foldl (fun s e => step e s) st es.
End ContactPage.

(** The part of [AppContent] that navigation acts on: its [currentPage]
    cell, the [isOpen] cell of [Header] (the mobile menu) and the state of
    [ContactPage], which exists while [renderPage] returns
    [<ContactPage />], that is while [currentPage] is [contact]. *)
Record AppContent : Set := mkAppContent {
  currentPage : Page;
  menuOpen : bool;
  contactPage : option ContactPage.State
}.

(** [useState<Page>('main')], [useState(false)]. *)
Definition AppContent_init : AppContent := mkAppContent main false None.

(** [setCurrentPage(p)]: nothing changes when [p] is the current page;
    otherwise [renderPage] returns another component, the old page is
    unmounted and the new one starts from its initial state. *)
Definition setPage (p : Page) (st : AppContent) : AppContent :=
  if decide (p = currentPage st) then st
  else mkAppContent p (menuOpen st)
         (if decide (p = contact) then Some ContactPage.initial else None).

Inductive NavEvent : Set :=
  | ClickLogo                    (* [onClick={() => setPage('main')}] *)
  | ClickNav (i : nat)           (* desktop nav, [i]-th item *)
  | ClickMenuButton              (* [onClick={() => setIsOpen(!isOpen)}] *)
  | ClickMobileNav (i : nat)     (* mobile nav, [i]-th item; rendered under [isOpen &&] *)
  | ClickFooterLink (i : nat)    (* [i]-th quick link of the footer *)
  | ClickMainButton (p : Page)   (* buttons of [MainPage] to [contact] and [analysis] *)
  | OnContact (e : ContactPage.Event).  (* an event inside [ContactPage] *)

Definition nav_step (e : NavEvent) (st : AppContent) : AppContent :=
  match e with
  | ClickLogo => setPage main st
  | ClickNav i =>
      match Header.navItems !! i with
      | Some item => setPage item.1 st
      | None => st
      end
  | ClickMenuButton => mkAppContent (currentPage st) (negb (menuOpen st)) (contactPage st)
  | ClickMobileNav i =>
      if menuOpen st then
        match Header.navItems !! i with
        | Some item =>
            let st' := setPage item.1 st in
            mkAppContent (currentPage st') false (contactPage st')
        | None => st
        end
      else st
  | ClickFooterLink i =>
      match Footer.links !! i with
      | Some p => setPage p st
      | None => st
      end
  | ClickMainButton p =>
      if bool_decide (currentPage st = main) && bool_decide (p = contact ∨ p = analysis)
      then setPage p st else st
  | OnContact ce =>
      match contactPage st with
      | Some c => mkAppContent (currentPage st) (menuOpen st) (Some (ContactPage.step ce c))
      | None => st
      end
  end.

Definition nav_run (es : list NavEvent) (st : AppContent) : AppContent :=
  foldl (fun s e => nav_step e s) st es.

(** The contact form is mounted exactly on the contact page. *)
Definition mounted_ok (st : AppContent) : Prop :=
  is_Some (contactPage st) ↔ currentPage st = contact.

(** ** More vocabulary for the editor *)

(** Event [e], arriving in state [ui], empties the store. *)
Definition resets (e : Event) (ui : UI) : bool :=
  match e with
  | ClickReset confirmed => confirmed && isEditMode (app ui)
  | _ => false
  end.

Fixpoint no_reset (es : list Event) (ui : UI) : bool :=
  match es with
  | [] => true
  | e :: es' => negb (resets e ui) && no_reset es' (step e ui)
  end.

Definition is_loadend (e : Event) : bool :=
  match e with
  | Loadend _ => true
  | _ => false
  end.

(** ** Basic facts *)

Section Basics.
Implicit Types (ui : UI) (st prev : App) (e : Event) (k v d : string).

Lemma js_or_None d : js_or None d = d.
Proof. reflexivity. Qed.

Lemma js_or_nonempty v d : v ≠ "" → js_or (Some v) d = v.
Proof. intros Hv. destruct v; [congruence | reflexivity]. Qed.

Lemma js_or_empty d : js_or (Some "") d = d.
Proof. reflexivity. Qed.

Lemma js_or_self v : js_or (Some v) "" = v.
Proof. destruct v; reflexivity. Qed.

Lemma js_get_own (c : gmap string string) k v :
  c !! k = Some v → js_get c k = Some (JsString v).
Proof. unfold js_get. by intros ->. Qed.



Lemma js_or_value_nonempty v d : v ≠ "" → js_or_value (Some (JsString v)) d = JsString v.
Proof. intros Hv. destruct v; [congruence | reflexivity]. Qed.

Lemma js_or_value_string v d : js_or_value (Some (JsString v)) d = JsString (js_or (Some v) d).
Proof. by destruct v. Qed.

(** A click on a slot changes the active edit only. *)
Lemma text_click_frame id d st st' :
  EditableText.handleClick id d st = Some st' →
  content st' = content st ∧ isEditMode st' = isEditMode st.
Proof.
  unfold EditableText.handleClick. destruct (negb _); [by intros [= <-] |].
  destruct (EditableText.currentText _ _ _); [by intros [= <-] | done].
Qed.

Lemma image_click_frame id d st st' :
  EditableImage.handleClick id d st = Some st' →
  content st' = content st ∧ isEditMode st' = isEditMode st.
Proof.
  unfold EditableImage.handleClick. destruct (negb _); [by intros [= <-] |].
  destruct (EditableImage.currentSrc _ _ _); [by intros [= <-] | done].
Qed.

Lemma app_useEffect_seed prev ui : app (useEffect_seed prev ui) = app ui.
Proof. unfold useEffect_seed. case_decide; reflexivity. Qed.

Lemma useEffect_seed_same prev ui :
  effect_deps prev = effect_deps (app ui) → useEffect_seed prev ui = ui.
Proof. intros Heq. unfold useEffect_seed. case_decide; [reflexivity | contradiction]. Qed.

Lemma useEffect_seed_changed prev ui :
  effect_deps prev ≠ effect_deps (app ui) →
  modal_value (useEffect_seed prev ui) = initialValue (app ui).
Proof. intros Hne. unfold useEffect_seed. case_decide; [contradiction | reflexivity]. Qed.

Lemma app_step e ui : app (step e ui) = app (handle e ui).
Proof. apply app_useEffect_seed. Qed.

(** An event that leaves the cells of [App] alone triggers no effect. *)
Lemma step_no_effect e ui : app (handle e ui) = app ui → step e ui = handle e ui.
Proof. intros Heq. apply useEffect_seed_same. by rewrite Heq. Qed.

Lemma app_handle_scratch e ui : is_scratch_event e = true → app (handle e ui) = app ui.
Proof.
  destruct e; try discriminate; intros _; simpl.
  - by destruct (isOpen (app ui)).
  - destruct (isOpen (app ui) && _); [| done]. by destruct file.
  - unfold onloadend. by destruct (pending ui !! i).
Qed.

Lemma app_step_scratch e ui : is_scratch_event e = true → app (step e ui) = app ui.
Proof. intros He. rewrite app_step. by apply app_handle_scratch. Qed.

Lemma app_run_scratch es ui :
  forallb is_scratch_event es = true → app (run es ui) = app ui.
Proof.
  revert ui. induction es as [|e es IH]; intros ui Hes; [done |].
  apply andb_prop in Hes as [He Hes]. simpl.
  rewrite (IH _ Hes). by apply app_step_scratch.
Qed.

Lemma run_app_cons e es ui : run (e :: es) ui = run es (step e ui).
Proof. reflexivity. Qed.

(** The store changes at [k] only by a [set(k, _)] or a reset. *)
Lemma step_content_frame k e ui :
  writes k e ui = false → content (app (step e ui)) !! k = content (app ui) !! k.
Proof.
  intros Hw. rewrite app_step.
  destruct e; simpl in *;
    try (by rewrite app_handle_scratch);
    try reflexivity.
  - destruct (isEditMode (app ui)); [| done].
    destruct confirmed; [discriminate | done].
  - destruct (EditableText.handleClick _ _ _) as [st'|] eqn:Hclick; [| done].
    simpl. by destruct (text_click_frame _ _ _ _ Hclick) as [-> _].
  - destruct (EditableImage.handleClick _ _ _) as [st'|] eqn:Hclick; [| done].
    simpl. by destruct (image_click_frame _ _ _ _ Hclick) as [-> _].
  - by destruct (isEditMode (app ui)).
  - apply bool_decide_eq_false in Hw. by rewrite lookup_insert_ne.
  - by destruct (isOpen (app ui)).
  - by destruct (isOpen (app ui)).
  - by destruct (isOpen (app ui)).
  - unfold isOpen, handleSaveEdit, with_app.
    destruct (editingItem (app ui)) as [item|]; simpl; [| done].
    apply bool_decide_eq_false in Hw. by rewrite lookup_insert_ne.
  - destruct (isOpen (app ui) && _); [| done]. by destruct file.
  - unfold onloadend. by destruct (pending ui !! i).
Qed.

Lemma run_content_frame k es ui :
  quiet k es ui = true → content (app (run es ui)) !! k = content (app ui) !! k.
Proof.
  revert ui. induction es as [|e es IH]; intros ui Hq; [done |].
  simpl in Hq. apply andb_prop in Hq as [Hw Hq].
  apply negb_true_iff in Hw.
  rewrite run_app_cons, (IH _ Hq). by apply step_content_frame.
Qed.

(** Opening from the closed dialog: the effect fires, whatever the scratch
    value was. *)
Lemma seed_on_open prev ui :
  editingItem prev = None → isOpen (app ui) = true →
  modal_value (useEffect_seed prev ui) = initialValue (app ui).
Proof.
  intros Hclosed Hopen. apply useEffect_seed_changed.
  unfold effect_deps, isOpen at 1. rewrite Hclosed. simpl.
  rewrite Hopen. intros [=].
Qed.

(** Closing the dialog: the effect fires and empties the scratch value. *)
Lemma seed_on_close prev ui :
  isOpen prev = true → editingItem (app ui) = None →
  modal_value (useEffect_seed prev ui) = "".
Proof.
  intros Hopen Hclosed.
  rewrite useEffect_seed_changed.
  - unfold initialValue. by rewrite Hclosed.
  - unfold effect_deps. rewrite Hopen. unfold isOpen. rewrite Hclosed. intros [=].
Qed.
End Basics.

(** ** The Content Store *)




(** C1, as the specification states it, fails on the empty string: the
    override is stored, but [content[id] || defaultText] reads an empty
    override as absent and yields the default. *)
Lemma set_get_empty_counterexample :
  ¬ (∀ (st : App) (k v d : string),
       EditableText.currentText (content (updateContent k v st)) k d = JsString v).
Proof.
  intros H. specialize (H (app init) "hero_title" "" "Default title").
  vm_compute in H. discriminate H.
Qed.

(** C1, amended. [set(k, v)] stores every string [v] against [k] without
    validation, and the store keeps [v] at [k] until the next [set(k, _)]
    or effective reset, whatever other events happen in between. During
    that time [get(k)] returns exactly [v] when [v] is not empty, and the
    default of the call site when [v] is the empty string. *)
Theorem set_then_get (ui : UI) (k v d : string) (es : list Event) :
  let ui1 := with_app (updateContent k v) ui in
  quiet k es ui1 = true →
  content (app (run es ui1)) !! k = Some v ∧
  (v ≠ "" →
     EditableText.currentText (content (app (run es ui1))) k d = JsString v ∧
     EditableImage.currentSrc (content (app (run es ui1))) k d = JsString v) ∧
  (v = "" →
     EditableText.currentText (content (app (run es ui1))) k d = JsString d ∧
     EditableImage.currentSrc (content (app (run es ui1))) k d = JsString d).
Proof.
  intros ui1 Hq.
  assert (Hk : content (app (run es ui1)) !! k = Some v).
  { rewrite (run_content_frame _ _ _ Hq). subst ui1. simpl. apply lookup_insert_eq. }
  unfold EditableText.currentText, EditableImage.currentSrc.
  rewrite (js_get_own _ _ _ Hk).
  split; [exact Hk |]. split.
  - intros Hv. split; by apply js_or_value_nonempty.
  - intros ->. split; reflexivity.
Qed.

Lemma set_then_get_witness :
  let es := [ClickToggle; ClickText "hero_tag" "Tag"; ModalChange "New tag"; ClickSave;
             ClickReset false; CallUpdateContent "hero_desc" "Text"] in
  let ui1 := with_app (updateContent "hero_title" "New Title") init in
  quiet "hero_title" es ui1 = true ∧
  content (app (run es ui1)) !! "hero_title" = Some "New Title" ∧
  EditableText.currentText (content (app (run es ui1))) "hero_title" "Default title"
    = JsString "New Title".
Proof.
  intros es ui1.
  assert (Hq : quiet "hero_title" es ui1 = true) by (vm_compute; reflexivity).
  split; [exact Hq |].
  pose proof (set_then_get init "hero_title" "New Title" "Default title" es Hq)
    as (Hraw & Hget & _).
  split; [exact Hraw |].
  assert (Hne : "New Title" ≠ "") by discriminate.
  exact (proj1 (Hget Hne)).
Defined.




(** ** Committing an edit *)

(** C5. With an active edit on key [EditItem.id item], committing [value]
    stores [value] unchanged against that key, leaves every other key and
    the edit mode as they were, and clears the active edit, so that no
    dialog is open; the Save button commits the scratch value this way. *)
Theorem commit_stores_and_closes (st : App) (item : EditItem.t) (value : string) :
  editingItem st = Some item →
  content (handleSaveEdit value st) = <[EditItem.id item := value]> (content st) ∧
  content (handleSaveEdit value st) !! EditItem.id item = Some value ∧
  (∀ k, k ≠ EditItem.id item → content (handleSaveEdit value st) !! k = content st !! k) ∧
  editingItem (handleSaveEdit value st) = None ∧
  isOpen (handleSaveEdit value st) = false ∧
  isEditMode (handleSaveEdit value st) = isEditMode st ∧
  (∀ ui : UI, app ui = st → modal_value ui = value →
     app (step ClickSave ui) = handleSaveEdit value st).
Proof.
  intros Hitem. unfold handleSaveEdit, isOpen. rewrite Hitem. simpl.
  repeat split.
  - apply lookup_insert_eq.
  - intros k Hk. by rewrite lookup_insert_ne.
  - intros ui <- <-. rewrite app_step. simpl.
    unfold isOpen. rewrite Hitem. simpl. unfold handleSaveEdit. by rewrite Hitem.
Qed.

Lemma commit_stores_and_closes_witness :
  let st := openEditor "hero_img" DEFAULT_IMAGES.hero image (mkApp true ∅ None) in
  content (handleSaveEdit "not-a-url" st) !! "hero_img" = Some "not-a-url" ∧
  editingItem (handleSaveEdit "not-a-url" st) = None.
Proof.
  intros st.
  destruct (commit_stores_and_closes st
              (EditItem.mk "hero_img" DEFAULT_IMAGES.hero image)
              "not-a-url" eq_refl)
    as (_ & Hget & _ & Hnone & _).
  split; [exact Hget | exact Hnone].
Defined.

(** C10. Without an active edit, committing any value changes nothing: the
    store keeps every key, no active edit appears, and the whole page state
    is the one before. *)
Theorem commit_without_active_edit (st : App) (value : string) :
  editingItem st = None →
  handleSaveEdit value st = st ∧
  content (handleSaveEdit value st) = content st ∧
  editingItem (handleSaveEdit value st) = None ∧
  (∀ ui : UI, app ui = st → step ClickSave ui = ui).
Proof.
  intros Hnone. unfold handleSaveEdit. rewrite Hnone.
  repeat split; [exact Hnone |].
  intros ui <-. rewrite step_no_effect; simpl; unfold isOpen; by rewrite Hnone.
Qed.

Lemma commit_without_active_edit_witness :
  let st := mkApp true {[ "hero_title" := "New Title" ]} None in
  editingItem st = None ∧ handleSaveEdit "stale" st = st.
Proof.
  intros st. split; [reflexivity |].
  apply (commit_without_active_edit st "stale"). reflexivity.
Defined.

(** ** Opening and closing the dialog *)

Section Dialog.
Implicit Types (ui : UI) (st : App) (id d v : string).

(** A click on an editable text in edit mode, dialog closed, the slot
    showing the string [shown]: the item carries [shown] and the scratch
    value is seeded to it. *)
Lemma click_text_seeds ui id d shown :
  isEditMode (app ui) = true → editingItem (app ui) = None →
  EditableText.currentText (content (app ui)) id d = JsString shown →
  editingItem (app (step (ClickText id d) ui)) = Some (EditItem.mk id shown text) ∧
  modal_value (step (ClickText id d) ui) = shown.
Proof.
  intros Hedit Hclosed Hshown.
  assert (Happ : app (handle (ClickText id d) ui) = openEditor id shown text (app ui)).
  { simpl. unfold EditableText.handleClick. by rewrite Hedit, Hshown. }
  split.
  - by rewrite app_step, Happ.
  - unfold step. rewrite (seed_on_open _ _ Hclosed); rewrite Happ; [| done].
    apply js_or_self.
Qed.

(** The same for an editable image. *)
Lemma click_image_seeds ui id d shown :
  isEditMode (app ui) = true → editingItem (app ui) = None →
  EditableImage.currentSrc (content (app ui)) id d = JsString shown →
  editingItem (app (step (ClickImage id d) ui)) = Some (EditItem.mk id shown image) ∧
  modal_value (step (ClickImage id d) ui) = shown.
Proof.
  intros Hedit Hclosed Hshown.
  assert (Happ : app (handle (ClickImage id d) ui) = openEditor id shown image (app ui)).
  { simpl. unfold EditableImage.handleClick. by rewrite Hedit, Hshown. }
  split.
  - by rewrite app_step, Happ.
  - unfold step. rewrite (seed_on_open _ _ Hclosed); rewrite Happ; [| done].
    apply js_or_self.
Qed.

(** Both close buttons run [onClose]. *)
Lemma step_close_buttons ui : step ClickX ui = step ClickCancel ui.
Proof. reflexivity. Qed.

Lemma app_step_cancel ui :
  isOpen (app ui) = true → app (step ClickCancel ui) = onClose (app ui).
Proof. intros Hopen. rewrite app_step. simpl. by rewrite Hopen. Qed.

Lemma step_unhandled ui : step ClickOverlay ui = ui ∧ step PressEscape ui = ui.
Proof. split; by apply step_no_effect. Qed.

(** Calls of [openEditor] in a row act on [App] alone. *)
Lemma app_run_open_calls (calls : list (string * string * EditType)) ui :
  app (run (map (λ c, CallOpenEditor c.1.1 c.1.2 c.2) calls) ui)
  = foldl (λ s c, openCall c s) (app ui) calls.
Proof.
  revert ui. induction calls as [|c calls IH]; intros ui; [done |].
  simpl. rewrite IH. by rewrite app_step.
Qed.

Lemma open_calls_frame (calls : list (string * string * EditType)) st :
  content (foldl (λ s c, openCall c s) st calls) = content st ∧
  isEditMode (foldl (λ s c, openCall c s) st calls) = isEditMode st.
Proof.
  revert st. induction calls as [|c calls IH]; intros st; [done |].
  simpl. destruct (IH (openCall c st)) as [-> ->]. done.
Qed.
End Dialog.

(** C2, as the specification states it, fails: [openEditor] has no guard of
    its own and creates the active edit with edit mode off as well. *)
Lemma open_editor_unguarded_counterexample :
  ¬ (∀ (st : App) (id v : string) (ty : EditType),
       isEditMode st = false → editingItem (openEditor id v ty st) = None).
Proof.
  intros H. specialize (H (app init) "hero_title" "Default title" text eq_refl).
  discriminate H.
Qed.

(** C2, amended. The guard against editing outside edit mode is at the
    click targets, not in [openEditor]: with edit mode disabled, a click on
    an editable text or on an editable image returns before [openEditor]
    and the hero background button is not rendered, so each of them leaves
    the whole state, and with it the absence of an active edit, as it was.
    [openEditor] itself sets the active edit whatever the edit mode. *)
Theorem open_guard_at_click_targets (ui : UI) :
  isEditMode (app ui) = false →
  (∀ id d, step (ClickText id d) ui = ui) ∧
  (∀ id d, step (ClickImage id d) ui = ui) ∧
  step ClickHeroButton ui = ui ∧
  (∀ id v ty, editingItem (openEditor id v ty (app ui)) = Some (EditItem.mk id v ty)).
Proof.
  intros Hoff.
  assert (Htext : ∀ id d, handle (ClickText id d) ui = ui).
  { intros id d. unfold handle, with_app, EditableText.handleClick.
    rewrite Hoff. simpl. by destruct ui. }
  assert (Himage : ∀ id d, handle (ClickImage id d) ui = ui).
  { intros id d. unfold handle, with_app, EditableImage.handleClick.
    rewrite Hoff. simpl. by destruct ui. }
  assert (Hhero : handle ClickHeroButton ui = ui).
  { unfold handle. by rewrite Hoff. }
  repeat split.
  - intros id d. rewrite step_no_effect; by rewrite Htext.
  - intros id d. rewrite step_no_effect; by rewrite Himage.
  - rewrite step_no_effect; by rewrite Hhero.
Qed.

Lemma open_guard_at_click_targets_witness :
  isEditMode (app init) = false ∧
  step (ClickText "hero_title" "Default title") init = init ∧
  editingItem (app (step (ClickImage "exterior_img" DEFAULT_IMAGES.exterior) init)) = None.
Proof.
  pose proof (open_guard_at_click_targets init eq_refl) as (Htext & Himage & _).
  split; [reflexivity |]. split; [apply Htext |].
  by rewrite Himage.
Defined.

(** C3, as the specification states it, fails for the outside dismissal: a
    click on the backdrop of an open dialog does not clear the active edit. *)
Lemma outside_dismissal_counterexample :
  ¬ (∀ ui : UI, isOpen (app ui) = true →
       editingItem (app (step ClickOverlay ui)) = None).
Proof.
  intros H.
  specialize (H (run [ClickToggle; ClickText "hero_title" "Default title"] init) eq_refl).
  vm_compute in H. discriminate H.
Qed.

(** C3, amended. For every open dialog and every sequence of scratch-value
    changes (typing, choosing files, file reads ending), Cancel and the
    close (X) button behave identically: they clear the active edit, drop
    the scratch value and leave the Content Store and the edit mode
    unchanged. The dialog has no outside dismissal: a click on the backdrop
    and the Escape key have no handler and leave the state, dialog
    included, as it is. *)
Theorem cancel_discards (ui : UI) (es : list Event) :
  isOpen (app ui) = true →
  forallb is_scratch_event es = true →
  step ClickX (run es ui) = step ClickCancel (run es ui) ∧
  editingItem (app (step ClickCancel (run es ui))) = None ∧
  content (app (step ClickCancel (run es ui))) = content (app ui) ∧
  isEditMode (app (step ClickCancel (run es ui))) = isEditMode (app ui) ∧
  modal_value (step ClickCancel (run es ui)) = "" ∧
  step ClickOverlay (run es ui) = run es ui ∧
  step PressEscape (run es ui) = run es ui ∧
  isOpen (app (run es ui)) = true.
Proof.
  intros Hopen Hes.
  pose proof (app_run_scratch es ui Hes) as Happ.
  assert (Hopen' : isOpen (app (run es ui)) = true) by (by rewrite Happ).
  split; [apply step_close_buttons |].
  rewrite (app_step_cancel _ Hopen'), Happ.
  repeat split; try apply step_unhandled; try done.
  unfold step. apply seed_on_close; [done |].
  simpl. by rewrite Hopen'.
Qed.

Lemma cancel_discards_witness :
  let ui := run [ClickToggle; ClickImage "exterior_img" DEFAULT_IMAGES.exterior] init in
  let es := [ModalChange "not-a-url"; FileChange (Some "data:image/png;base64,AAAA");
             Loadend 0; ModalChange ""] in
  editingItem (app (step ClickCancel (run es ui))) = None ∧
  content (app (step ClickCancel (run es ui))) = content (app ui) ∧
  step ClickX (run es ui) = step ClickCancel (run es ui).
Proof.
  intros ui es.
  pose proof (cancel_discards ui es eq_refl eq_refl) as (Hsame & Hnone & Hstore & _).
  split; [exact Hnone |]. split; [exact Hstore | exact Hsame].
Defined.

(** C7. The active edit is a single optional cell, so every state reached
    by any events holds at most one. Opening while an edit is open
    replaces it: after any number of [openEditor] calls in a row, the
    active edit is the item of the last call alone, and the store and the
    edit mode are as before the first call, so no earlier edit was saved. *)
Theorem single_active_edit :
  (∀ (es : list Event) (ui : UI), (length (activeEdits (app (run es ui))) ≤ 1)%nat) ∧
  (∀ (ui : UI) (calls : list (string * string * EditType)) (c : string * string * EditType),
     let ui' := run (map (λ c, CallOpenEditor c.1.1 c.1.2 c.2) (calls ++ [c])) ui in
     editingItem (app ui') = Some (EditItem.mk c.1.1 c.1.2 c.2) ∧
     activeEdits (app ui') = [EditItem.mk c.1.1 c.1.2 c.2] ∧
     content (app ui') = content (app ui) ∧
     isEditMode (app ui') = isEditMode (app ui)).
Proof.
  split.
  - intros es ui. unfold activeEdits.
    destruct (editingItem (app (run es ui))); simpl; lia.
  - intros ui calls c ui'. subst ui'.
    rewrite app_run_open_calls.
    destruct (open_calls_frame (calls ++ [c]) (app ui)) as [Hc He].
    rewrite Hc, He. unfold activeEdits.
    rewrite foldl_app. simpl. done.
Qed.

(** ** Seeding the scratch value *)

(** C4 fails on the code when a second editor is opened while one is open.
    The effect that seeds the scratch value depends on [initialValue] and
    [isOpen] only, not on the key: when the item that replaces the open one
    carries the same value, no dependency changes, the effect does not run
    and the scratch value typed for the first key stays in the dialog of
    the second. (Opening from the closed dialog always seeds:
    [click_text_seeds], [click_image_seeds].) *)
Theorem second_open_keeps_scratch (ui : UI) (item : EditItem.t) (id : string) (ty : EditType) :
  editingItem (app ui) = Some item →
  editingItem (app (step (CallOpenEditor id (EditItem.value item) ty) ui))
    = Some (EditItem.mk id (EditItem.value item) ty) ∧
  modal_value (step (CallOpenEditor id (EditItem.value item) ty) ui) = modal_value ui.
Proof.
  intros Hitem. split.
  - by rewrite app_step.
  - unfold step. rewrite useEffect_seed_same; [done |].
    unfold effect_deps, initialValue, isOpen. simpl. by rewrite Hitem.
Qed.

Lemma second_open_keeps_scratch_witness :
  let ui := run [ClickToggle; ClickImage "exterior_img" DEFAULT_IMAGES.exterior;
                 ModalChange "typed for exterior_img"] init in
  editingItem (app ui) = Some (EditItem.mk "exterior_img" DEFAULT_IMAGES.exterior image) ∧
  step (ClickImage "overview_img" DEFAULT_IMAGES.exterior) ui
    = step (CallOpenEditor "overview_img" DEFAULT_IMAGES.exterior image) ui ∧
  EditableImage.currentSrc (content (app ui)) "overview_img" DEFAULT_IMAGES.exterior
    = JsString DEFAULT_IMAGES.exterior ∧
  modal_value (step (CallOpenEditor "overview_img" DEFAULT_IMAGES.exterior image) ui)
    = "typed for exterior_img".
Proof.
  intros ui.
  split; [reflexivity |]. split; [reflexivity |]. split; [reflexivity |].
  exact (proj2 (second_open_keeps_scratch ui
                  (EditItem.mk "exterior_img" DEFAULT_IMAGES.exterior image)
                  "overview_img" image eq_refl)).
Defined.

(** ** File reads that end late *)

(** C9, as the specification states it, fails: [onloadend] calls [setValue]
    without looking at the session. A read started while editing
    [exterior_img] and ending after that dialog was cancelled and the
    editor of [hero_title] was opened lands in the scratch value of
    [hero_title]. *)
Lemma late_file_read_counterexample : ¬ stale_read_discarded.
Proof.
  intros H.
  specialize (H [ClickToggle; ClickImage "exterior_img" DEFAULT_IMAGES.exterior]
                [ClickText "hero_title" "Default title"]
                "data:image/png;base64,AAAA"
                eq_refl eq_refl eq_refl eq_refl).
  destruct H as (_ & _ & H). specialize (H eq_refl).
  vm_compute in H. discriminate H.
Qed.

(** C9, amended. The callback of a file read that ends, however late,
    never mutates the Content Store, the active edit or the edit mode. It
    has no session guard: it always writes its result into the scratch
    value of the dialog. When it arrives while no dialog is open, the
    result is dropped by the seeding of the next dialog: the next click on
    an editable slot that shows a string opens the dialog with that
    string. *)
Theorem late_file_read (ui : UI) (i : nat) (result : string) :
  pending ui !! i = Some result →
  content (app (step (Loadend i) ui)) = content (app ui) ∧
  editingItem (app (step (Loadend i) ui)) = editingItem (app ui) ∧
  isEditMode (app (step (Loadend i) ui)) = isEditMode (app ui) ∧
  modal_value (step (Loadend i) ui) = result ∧
  (editingItem (app ui) = None → isEditMode (app ui) = true →
   ∀ id d shown : string,
     (EditableText.currentText (content (app ui)) id d = JsString shown →
      modal_value (step (ClickText id d) (step (Loadend i) ui)) = shown) ∧
     (EditableImage.currentSrc (content (app ui)) id d = JsString shown →
      modal_value (step (ClickImage id d) (step (Loadend i) ui)) = shown)).
Proof.
  intros Hread.
  assert (Happ : app (step (Loadend i) ui) = app ui) by (by apply app_step_scratch).
  rewrite Happ. split; [done |]. split; [done |]. split; [done |]. split.
  - rewrite step_no_effect by (by apply app_handle_scratch).
    simpl. unfold onloadend. by rewrite Hread.
  - intros Hclosed Hedit id d shown. split; intros Hshown.
    + pose proof (click_text_seeds (step (Loadend i) ui) id d shown) as Hseed.
      rewrite Happ in Hseed. by apply Hseed.
    + pose proof (click_image_seeds (step (Loadend i) ui) id d shown) as Hseed.
      rewrite Happ in Hseed. by apply Hseed.
Qed.

Lemma late_file_read_witness :
  let ui := run [ClickToggle; ClickImage "exterior_img" DEFAULT_IMAGES.exterior;
                 FileChange (Some "data:image/png;base64,AAAA"); ClickCancel] init in
  pending ui !! 0%nat = Some "data:image/png;base64,AAAA" ∧
  content (app (step (Loadend 0) ui)) = content (app ui) ∧
  modal_value (step (ClickText "hero_title" "Default title") (step (Loadend 0) ui))
    = "Default title".
Proof.
  intros ui.
  pose proof (late_file_read ui 0 "data:image/png;base64,AAAA" eq_refl)
    as (Hstore & _ & _ & _ & Hnext).
  split; [reflexivity |]. split; [exact Hstore |].
  exact (proj1 (Hnext eq_refl eq_refl "hero_title" "Default title" "Default title") eq_refl).
Defined.

(** ** Rendering of an editable text *)

Section Rendering.
Implicit Types (s t line : string) (ns : list Node).

Lemma string_app_nil t : "" ++ t = t.
Proof. reflexivity. Qed.

Lemma string_app_cons c s t : String c s ++ t = String c (s ++ t).
Proof. reflexivity. Qed.

Lemma string_app_assoc s t u : (s ++ t) ++ u = s ++ (t ++ u).
Proof.
  induction s as [|c s IH]; [done |].
  by rewrite !string_app_cons, IH.
Qed.

Lemma text_of_app ns1 ns2 : text_of (ns1 ++ ns2) = text_of ns1 ++ text_of ns2.
Proof.
  induction ns1 as [|n ns1 IH]; simpl; [done |].
  by rewrite IH, string_app_assoc.
Qed.

Lemma js_split_length sep s : length (js_split sep s) = S (count_char sep s).
Proof.
  induction s as [|c s IH]; simpl; [done |].
  case_decide; simpl; [by rewrite IH |].
  destruct (js_split sep s); simpl in *; done.
Qed.

Lemma fragment_S len i line :
  EditableTextView.fragment (S len) (S i) line = EditableTextView.fragment len i line.
Proof.
  unfold EditableTextView.fragment.
  destruct (Z.ltb_spec (Z.of_nat (S i)) (Z.of_nat (S len) - 1));
    destruct (Z.ltb_spec (Z.of_nat i) (Z.of_nat len - 1)); (done || lia).
Qed.

(** The fragments of a split with one more piece in front. *)
Lemma imap_fragment_cons line (pieces : list string) :
  imap (EditableTextView.fragment (length (line :: pieces))) (line :: pieces)
  = EditableTextView.fragment (S (length pieces)) 0 line
    :: imap (EditableTextView.fragment (length pieces)) pieces.
Proof.
  simpl. f_equal. apply imap_ext. intros i x _. simpl. apply fragment_S.
Qed.

Lemma fragment_first_break len line :
  len ≠ 0%nat → EditableTextView.fragment (S len) 0 line = [TextNode line; Br].
Proof.
  intros Hlen. unfold EditableTextView.fragment.
  destruct (Z.ltb_spec (Z.of_nat 0) (Z.of_nat (S len) - 1)); [done | lia].
Qed.

(** The line breaks of a fragment do not depend on its line. *)
Lemma fragment_breaks len i line line' :
  length (filter (λ n, is_br n = true) (EditableTextView.fragment len i line))
  = length (filter (λ n, is_br n = true) (EditableTextView.fragment len i line')).
Proof.
  unfold EditableTextView.fragment.
  by destruct (Z.of_nat i <? Z.of_nat len - 1)%Z.
Qed.

Lemma js_split_length_pos sep s : length (js_split sep s) ≠ 0%nat.
Proof. rewrite js_split_length. lia. Qed.

Lemma children_text t : text_of (concat (EditableTextView.children t)) = t.
Proof.
  unfold EditableTextView.children.
  induction t as [|c s IH]; [reflexivity |].
  simpl js_split. case_decide as Hc.
  - rewrite imap_fragment_cons, fragment_first_break by apply js_split_length_pos.
    simpl. rewrite IH. by subst c.
  - pose proof (js_split_length_pos newline s) as Hpos.
    destruct (js_split newline s) as [|piece pieces]; [done |].
    rewrite imap_fragment_cons in *. simpl in *.
    rewrite string_app_cons. by rewrite IH.
Qed.

Lemma children_breaks t :
  length (filter (λ n, is_br n = true) (concat (EditableTextView.children t)))
  = count_char newline t.
Proof.
  unfold EditableTextView.children.
  induction t as [|c s IH]; [reflexivity |].
  simpl js_split. simpl count_char. case_decide as Hc.
  - rewrite imap_fragment_cons, fragment_first_break by apply js_split_length_pos.
    rewrite concat_cons, filter_app, length_app, IH. reflexivity.
  - pose proof (js_split_length_pos newline s) as Hpos.
    destruct (js_split newline s) as [|piece pieces]; [done |].
    rewrite imap_fragment_cons in *.
    rewrite concat_cons, filter_app, length_app in *.
    by rewrite (fragment_breaks _ _ _ piece).
Qed.
End Rendering.

(** X1. Rendering keeps the text: reading the children of an
    [EditableText] in order, with a line break for every [<br />], gives
    back exactly the text that was rendered, line breaks included. *)
Theorem render_keeps_text (currentText : string) :
  text_of (concat (EditableTextView.children currentText)) = currentText.
Proof. apply children_text. Qed.

(** X2. A text with [n] newline characters is rendered as [n + 1]
    fragments with exactly [n] [<br />] elements between them, and no
    rendered line contains a newline character. *)
Theorem render_line_breaks (currentText : string) :
  length (EditableTextView.children currentText) = S (count_char newline currentText) ∧
  length (filter (λ n, is_br n = true) (concat (EditableTextView.children currentText)))
    = count_char newline currentText ∧
  Forall (λ line, count_char newline line = 0%nat) (js_split newline currentText) ∧
  (∀ (i : nat) (frag : list Node),
     EditableTextView.children currentText !! i = Some frag →
     ∃ line, js_split newline currentText !! i = Some line ∧ head frag = Some (TextNode line)).
Proof.
  split; [| split; [apply children_breaks |]];
    unfold EditableTextView.children; [| split].
  - by rewrite length_imap, js_split_length.
  - induction currentText as [|c s IH]; [by constructor |].
    simpl js_split. case_decide as Hc.
    + by constructor.
    + destruct (js_split newline s) as [|piece pieces].
      * constructor; [| done]. simpl. by rewrite decide_False.
      * inversion IH; subst. constructor; [| done]. simpl. by rewrite decide_False.
  - intros i frag Hfrag. rewrite list_lookup_imap in Hfrag.
    destruct (js_split newline currentText !! i) as [line|]; [| done].
    simpl in Hfrag. injection Hfrag as <-. by exists line.
Qed.

(** ** One step of the editor, as equations on the whole state *)

Section Steps.
Implicit Types (ui : UI) (st : App) (id d v : string).

Lemma is_open_Some st item : editingItem st = Some item → isOpen st = true.
Proof. unfold isOpen. by intros ->. Qed.

Lemma is_open_None st : editingItem st = None → isOpen st = false.
Proof. unfold isOpen. by intros ->. Qed.

(** An event that opens the editor from the closed dialog. *)
Lemma step_opens e ui id v ty :
  editingItem (app ui) = None →
  handle e ui = with_app (openEditor id v ty) ui →
  step e ui = mkUI (openEditor id v ty (app ui)) v (pending ui).
Proof.
  intros Hclosed Hhandle. unfold step, useEffect_seed. rewrite Hhandle.
  rewrite decide_False.
  - unfold with_app. simpl app. simpl pending. f_equal. exact (js_or_self v).
  - unfold effect_deps, isOpen. rewrite Hclosed. simpl. intros [=].
Qed.

Lemma step_click_text ui id d shown :
  isEditMode (app ui) = true → editingItem (app ui) = None →
  EditableText.currentText (content (app ui)) id d = JsString shown →
  step (ClickText id d) ui = mkUI (openEditor id shown text (app ui)) shown (pending ui).
Proof.
  intros Hedit Hclosed Hshown. apply step_opens; [done |].
  simpl. unfold with_app, EditableText.handleClick. by rewrite Hedit, Hshown.
Qed.

Lemma step_click_image ui id d shown :
  isEditMode (app ui) = true → editingItem (app ui) = None →
  EditableImage.currentSrc (content (app ui)) id d = JsString shown →
  step (ClickImage id d) ui = mkUI (openEditor id shown image (app ui)) shown (pending ui).
Proof.
  intros Hedit Hclosed Hshown. apply step_opens; [done |].
  simpl. unfold with_app, EditableImage.handleClick. by rewrite Hedit, Hshown.
Qed.

(** Storing what a slot shows does not change what it shows. *)
Lemma resolved_again (a : option JsValue) d shown :
  js_or_value a d = JsString shown → js_or (Some shown) d = shown.
Proof.
  destruct a as [[[|c s]|m]|]; simpl; intros [= <-]; try done; by destruct d.
Qed.

(** An override of the slot is what the slot shows, unless it is empty. *)
Lemma current_text_insert (c : gmap string string) k v d :
  EditableText.currentText (<[k := v]> c) k d = JsString (js_or (Some v) d).
Proof.
  unfold EditableText.currentText.
  rewrite (js_get_own _ _ v) by apply lookup_insert_eq. apply js_or_value_string.
Qed.

Lemma step_modal_change ui v :
  isOpen (app ui) = true → step (ModalChange v) ui = setValue v ui.
Proof.
  intros Hopen. rewrite step_no_effect; simpl; by rewrite Hopen.
Qed.

Lemma step_save ui item :
  editingItem (app ui) = Some item →
  step ClickSave ui
  = mkUI (mkApp (isEditMode (app ui))
                (<[EditItem.id item := modal_value ui]> (content (app ui))) None)
         "" (pending ui).
Proof.
  intros Hitem. unfold step, useEffect_seed. simpl handle.
  rewrite (is_open_Some _ _ Hitem).
  unfold with_app, handleSaveEdit. simpl. rewrite Hitem. simpl.
  rewrite decide_False; [done |].
  unfold effect_deps. rewrite (is_open_Some _ _ Hitem). intros [=].
Qed.

Lemma step_file_change ui item dataURL :
  editingItem (app ui) = Some item → EditItem.type item = image →
  step (FileChange (Some dataURL)) ui
  = mkUI (app ui) (modal_value ui) (pending ui ++ [dataURL]).
Proof.
  intros Hitem Hty.
  assert (Hh : handle (FileChange (Some dataURL)) ui
               = mkUI (app ui) (modal_value ui) (pending ui ++ [dataURL])).
  { simpl. rewrite (is_open_Some _ _ Hitem). unfold modalType. rewrite Hitem. simpl.
    rewrite Hty. done. }
  rewrite step_no_effect; by rewrite Hh.
Qed.

Lemma step_loadend ui i result :
  pending ui !! i = Some result →
  step (Loadend i) ui = mkUI (app ui) result (delete i (pending ui)).
Proof.
  intros Hread.
  assert (Hh : handle (Loadend i) ui = mkUI (app ui) result (delete i (pending ui))).
  { simpl. unfold onloadend. by rewrite Hread. }
  rewrite step_no_effect; by rewrite Hh.
Qed.
End Steps.

(** ** Workflows of the editor *)

(** X3. The whole edit of a text slot. In edit mode with the dialog
    closed, for a slot [k] that shows a string, clicking the slot, typing
    [v] and pressing Save leaves the store with [v] at [k] and every other
    key as before, the dialog closed and its scratch value empty; the slot
    then shows [v] when [v] is not empty, and a new click on it opens the
    dialog on what the slot shows. *)
Theorem edit_text_workflow (ui : UI) (k d v shown : string) :
  isEditMode (app ui) = true → editingItem (app ui) = None →
  EditableText.currentText (content (app ui)) k d = JsString shown →
  let ui' := run [ClickText k d; ModalChange v; ClickSave] ui in
  ui' = mkUI (mkApp true (<[k := v]> (content (app ui))) None) "" (pending ui) ∧
  (v ≠ "" → EditableText.currentText (content (app ui')) k d = JsString v) ∧
  JsString (modal_value (step (ClickText k d) ui'))
  = EditableText.currentText (content (app ui')) k d.
Proof.
  intros Hedit Hclosed Hshown ui'.
  assert (Hrun : ui' = mkUI (mkApp true (<[k := v]> (content (app ui))) None) "" (pending ui)).
  { subst ui'. unfold run. simpl foldl.
    rewrite (step_click_text _ _ _ _ Hedit Hclosed Hshown).
    rewrite step_modal_change by done.
    erewrite step_save by reflexivity. simpl. by rewrite Hedit. }
  split; [exact Hrun |]. rewrite Hrun. simpl app. simpl content.
  rewrite current_text_insert. split.
  - intros Hv. by rewrite js_or_nonempty.
  - rewrite (step_click_text _ k d (js_or (Some v) d));
      [done | done | done | apply current_text_insert].
Qed.

Lemma edit_text_workflow_witness :
  let ui := step ClickToggle init in
  let ui' := run [ClickText "hero_title" "Default title"; ModalChange "New Title"; ClickSave] ui in
  content (app ui') = {[ "hero_title" := "New Title" ]} ∧
  EditableText.currentText (content (app ui')) "hero_title" "Default title"
  = JsString "New Title".
Proof.
  intros ui ui'.
  pose proof (edit_text_workflow ui "hero_title" "Default title" "New Title" "Default title"
                eq_refl eq_refl eq_refl)
    as (Hrun & Hget & _).
  split.
  - subst ui'. rewrite Hrun. reflexivity.
  - apply Hget. discriminate.
Defined.

(** X4. Line breaks survive the round trip through the editor: after a
    non-empty text [v] has been typed and saved for a slot [k] that showed
    a string, the slot renders, and its rendered children read back as
    exactly [v], with one [<br />] for each newline character of [v]. *)
Theorem saved_text_is_rendered (ui : UI) (k d v shown : string) :
  isEditMode (app ui) = true → editingItem (app ui) = None →
  EditableText.currentText (content (app ui)) k d = JsString shown →
  v ≠ "" →
  EditableTextView.view
    (content (app (run [ClickText k d; ModalChange v; ClickSave] ui))) k d
  = Some (EditableTextView.children v) ∧
  text_of (concat (EditableTextView.children v)) = v ∧
  length (filter (λ n, is_br n = true) (concat (EditableTextView.children v)))
  = count_char newline v.
Proof.
  intros Hedit Hclosed Hshown Hv. unfold EditableTextView.view.
  assert (Hget : EditableText.currentText
                   (content (app (run [ClickText k d; ModalChange v; ClickSave] ui))) k d
                 = JsString v).
  { unfold run. simpl foldl.
    rewrite (step_click_text _ _ _ _ Hedit Hclosed Hshown).
    rewrite step_modal_change by done.
    erewrite step_save by reflexivity. simpl.
    rewrite current_text_insert. by rewrite js_or_nonempty. }
  rewrite Hget. split; [done |]. split.
  - apply children_text.
  - apply children_breaks.
Qed.

Lemma saved_text_is_rendered_witness :
  let ui := step ClickToggle init in
  let v := "A" ++ String newline "B" in
  EditableTextView.view
    (content (app (run [ClickText "footer_desc" "Default"; ModalChange v; ClickSave] ui)))
    "footer_desc" "Default" = Some [[TextNode "A"; Br]; [TextNode "B"]] ∧
  text_of (concat (EditableTextView.children v)) = v.
Proof.
  intros ui v.
  assert (Hv : v ≠ "") by discriminate.
  pose proof (saved_text_is_rendered ui "footer_desc" "Default" v "Default"
                eq_refl eq_refl eq_refl Hv) as (Hview & Htext & _).
  split; [exact Hview | exact Htext].
Defined.

(** X5. Saving without a change freezes what the slot shows: for a slot
    [k] that shows the string [shown], after a click on the slot and Save
    at once the store holds [shown] as an override of [k] (also when
    [shown] was the default), and the slot shows the same value as
    before. *)
Theorem save_unchanged (ui : UI) (k d shown : string) :
  isEditMode (app ui) = true → editingItem (app ui) = None →
  EditableText.currentText (content (app ui)) k d = JsString shown →
  let ui' := run [ClickText k d; ClickSave] ui in
  content (app ui') = <[k := shown]> (content (app ui)) ∧
  content (app ui') !! k = Some shown ∧
  EditableText.currentText (content (app ui')) k d = JsString shown.
Proof.
  intros Hedit Hclosed Hshown ui'.
  assert (Hc : content (app ui') = <[k := shown]> (content (app ui))).
  { subst ui'. unfold run. simpl foldl.
    rewrite (step_click_text _ _ _ _ Hedit Hclosed Hshown).
    by erewrite step_save by reflexivity. }
  rewrite Hc. split; [done |]. split; [apply lookup_insert_eq |].
  rewrite current_text_insert. f_equal.
  by apply (resolved_again (js_get (content (app ui)) k)).
Qed.

Lemma save_unchanged_witness :
  let ui := step ClickToggle init in
  let ui' := run [ClickText "hero_title" "Default title"; ClickSave] ui in
  content (app ui) !! "hero_title" = None ∧
  content (app ui') !! "hero_title" = Some "Default title".
Proof.
  intros ui ui'. split; [reflexivity |].
  exact (proj1 (proj2 (save_unchanged ui "hero_title" "Default title" "Default title"
                         eq_refl eq_refl eq_refl))).
Defined.

(** X6. The upload of a local file. In edit mode with the dialog closed,
    for an image slot [k] that shows a string, clicking the slot, choosing
    a file, the end of its read and Save store the data URL of the file
    against [k], close the dialog and leave the reads in flight as they
    were. Closing the file chooser without a file changes nothing. *)
Theorem upload_workflow (ui : UI) (k d dataURL shown : string) :
  isEditMode (app ui) = true → editingItem (app ui) = None →
  EditableImage.currentSrc (content (app ui)) k d = JsString shown →
  run [ClickImage k d; FileChange (Some dataURL); Loadend (length (pending ui)); ClickSave] ui
  = mkUI (mkApp true (<[k := dataURL]> (content (app ui))) None) "" (pending ui) ∧
  step (FileChange None) (step (ClickImage k d) ui) = step (ClickImage k d) ui.
Proof.
  intros Hedit Hclosed Hshown. split.
  - unfold run. simpl foldl.
    rewrite (step_click_image _ _ _ _ Hedit Hclosed Hshown).
    erewrite step_file_change by reflexivity. simpl pending.
    erewrite step_loadend by (by apply list_lookup_middle).
    simpl. rewrite delete_middle, app_nil_r.
    erewrite step_save by reflexivity. simpl. by rewrite Hedit.
  - rewrite (step_click_image _ _ _ _ Hedit Hclosed Hshown).
    by rewrite step_no_effect.
Qed.

Lemma upload_workflow_witness :
  content (app (run [ClickImage "exterior_img" DEFAULT_IMAGES.exterior;
                     FileChange (Some "data:image/png;base64,AAAA");
                     Loadend 0; ClickSave] (step ClickToggle init)))
  = {[ "exterior_img" := "data:image/png;base64,AAAA" ]}.
Proof.
  pose proof (upload_workflow (step ClickToggle init) "exterior_img"
                DEFAULT_IMAGES.exterior "data:image/png;base64,AAAA"
                DEFAULT_IMAGES.exterior eq_refl eq_refl eq_refl)
    as [Hrun _].
  simpl length in Hrun. rewrite Hrun. reflexivity.
Defined.

(** X7. With two file reads in flight the scratch value is the result of
    the read that ends last, whatever the order in which the files were
    chosen: if the read of the second file ends first, the dialog ends up
    with the first file. *)
Theorem last_read_to_end_wins (ui : UI) (item : EditItem.t) (file1 file2 : string) :
  editingItem (app ui) = Some item → EditItem.type item = image → pending ui = [] →
  let chosen := run [FileChange (Some file1); FileChange (Some file2)] ui in
  pending chosen = [file1; file2] ∧
  run [Loadend 0; Loadend 0] chosen = mkUI (app ui) file2 [] ∧
  run [Loadend 1; Loadend 0] chosen = mkUI (app ui) file1 [].
Proof.
  intros Hitem Hty Hpending chosen.
  assert (Hchosen : chosen = mkUI (app ui) (modal_value ui) [file1; file2]).
  { subst chosen. unfold run. simpl foldl.
    rewrite (step_file_change _ _ _ Hitem Hty).
    rewrite (step_file_change _ item) by done.
    simpl. by rewrite Hpending. }
  rewrite Hchosen. split; [done |]. unfold run. simpl foldl. split.
  - rewrite (step_loadend (mkUI (app ui) (modal_value ui) [file1; file2]) 0%nat file1) by done.
    by rewrite (step_loadend _ 0%nat file2).
  - rewrite (step_loadend (mkUI (app ui) (modal_value ui) [file1; file2]) 1%nat file2) by done.
    by rewrite (step_loadend _ 0%nat file1).
Qed.

Lemma last_read_to_end_wins_witness :
  let ui := run [ClickToggle; ClickImage "exterior_img" DEFAULT_IMAGES.exterior] init in
  modal_value (run [Loadend 1; Loadend 0]
                 (run [FileChange (Some "data:first"); FileChange (Some "data:second")] ui))
  = "data:first".
Proof.
  intros ui.
  pose proof (last_read_to_end_wins ui
                (EditItem.mk "exterior_img" DEFAULT_IMAGES.exterior image)
                "data:first" "data:second" eq_refl eq_refl eq_refl) as (_ & _ & Hlate).
  by rewrite Hlate.
Defined.

(** ** What the events never do *)

Section Never.
Implicit Types (ui : UI) (e : Event) (es : list Event).

Lemma step_dom_grows e ui :
  resets e ui = false → dom (content (app ui)) ⊆ dom (content (app (step e ui))).
Proof.
  intros Hr. rewrite app_step.
  destruct e; simpl in *;
    try (by rewrite app_handle_scratch);
    try reflexivity.
  - destruct (isEditMode (app ui)); [| done].
    destruct confirmed; [discriminate | done].
  - destruct (EditableText.handleClick _ _ _) as [st'|] eqn:Hclick; [| done].
    simpl. by destruct (text_click_frame _ _ _ _ Hclick) as [-> _].
  - destruct (EditableImage.handleClick _ _ _) as [st'|] eqn:Hclick; [| done].
    simpl. by destruct (image_click_frame _ _ _ _ Hclick) as [-> _].
  - by destruct (isEditMode (app ui)).
  - apply dom_insert_subseteq.
  - by destruct (isOpen (app ui)).
  - by destruct (isOpen (app ui)).
  - by destruct (isOpen (app ui)).
  - unfold isOpen, handleSaveEdit, with_app.
    destruct (editingItem (app ui)) as [item|]; simpl; [| done].
    apply dom_insert_subseteq.
  - destruct (isOpen (app ui) && _); [| done]. by destruct file.
  - unfold onloadend. by destruct (pending ui !! i).
Qed.

(** Outside the end of a file read, the scratch value of a closed dialog is
    written by the seeding effect only. *)
Lemma handle_closed_value e ui :
  is_loadend e = false → isOpen (app ui) = false →
  modal_value (handle e ui) = modal_value ui.
Proof.
  intros He Hclosed. destruct e; try discriminate; simpl; rewrite ?Hclosed; try done.
  - by destruct (isEditMode (app ui)).
  - by destruct (EditableText.handleClick _ _ _).
  - by destruct (EditableImage.handleClick _ _ _).
  - by destruct (isEditMode (app ui)).
Qed.

Lemma step_closed_scratch e ui :
  is_loadend e = false →
  (editingItem (app ui) = None → modal_value ui = "") →
  editingItem (app (step e ui)) = None → modal_value (step e ui) = "".
Proof.
  intros He Hinv Hclosed'. rewrite app_step in Hclosed'. unfold step.
  destruct (editingItem (app ui)) as [item|] eqn:Hitem.
  - apply seed_on_close; [by eapply is_open_Some | done].
  - rewrite useEffect_seed_same.
    + rewrite handle_closed_value by (done || by apply is_open_None). by apply Hinv.
    + unfold effect_deps, initialValue, isOpen. by rewrite Hitem, Hclosed'.
Qed.
End Never.

(** X8. No event removes a single override. Over any sequence of events
    without an effective reset, every key that has an override keeps one:
    the set of overridden keys only grows. *)
Theorem overrides_only_grow (es : list Event) (ui : UI) :
  no_reset es ui = true →
  dom (content (app ui)) ⊆ dom (content (app (run es ui))).
Proof.
  revert ui. induction es as [|e es IH]; intros ui Hes; [done |].
  simpl in Hes. apply andb_prop in Hes as [He Hes]. apply negb_true_iff in He.
  rewrite run_app_cons. etrans; [by apply step_dom_grows | by apply IH].
Qed.

Lemma overrides_only_grow_witness :
  let es := [ClickToggle; ClickText "hero_tag" "Tag"; ModalChange "New tag"; ClickSave;
             ClickReset false; ClickText "hero_tag" "Tag"; ModalChange ""; ClickSave] in
  let ui := with_app (updateContent "hero_title" "New Title") init in
  dom (content (app ui)) ⊆ dom (content (app (run es ui))) ∧
  content (app (run es ui)) !! "hero_tag" = Some "".
Proof.
  intros es ui. split; [| reflexivity].
  apply (overrides_only_grow es ui). reflexivity.
Defined.

(** X9. Toggling edit mode twice gives the state back, in every state.
    Toggling while the dialog is open neither closes the dialog nor blocks
    the commit: Save pressed after the toggle stores the scratch value
    against the key of the active edit as usual. *)
Theorem toggle_keeps_dialog (ui : UI) :
  step ClickToggle (step ClickToggle ui) = ui ∧
  step ClickToggle ui
  = mkUI (mkApp (negb (isEditMode (app ui))) (content (app ui)) (editingItem (app ui)))
         (modal_value ui) (pending ui) ∧
  (∀ item : EditItem.t,
     editingItem (app ui) = Some item →
     run [ClickToggle; ClickSave] ui
     = mkUI (mkApp (negb (isEditMode (app ui)))
                   (<[EditItem.id item := modal_value ui]> (content (app ui))) None)
            "" (pending ui)).
Proof.
  assert (Htoggle : ∀ u, step ClickToggle u = with_app toggleEditMode u).
  { intros u. unfold step. by apply useEffect_seed_same. }
  split; [| split].
  - rewrite !Htoggle. destruct ui as [[em c it] mv pd]. simpl.
    unfold with_app, toggleEditMode. simpl. by rewrite negb_involutive.
  - by rewrite Htoggle.
  - intros item Hitem. unfold run. simpl foldl. rewrite Htoggle.
    by erewrite step_save by (simpl; exact Hitem).
Qed.

Lemma toggle_keeps_dialog_witness :
  let ui := run [ClickToggle; ClickText "hero_title" "Default title"; ModalChange "New Title"] init in
  step ClickToggle (step ClickToggle init) = init ∧
  app (run [ClickToggle; ClickSave] ui)
  = mkApp false {[ "hero_title" := "New Title" ]} None.
Proof.
  intros ui.
  pose proof (toggle_keeps_dialog init) as (Htwice & _).
  pose proof (toggle_keeps_dialog ui) as (_ & _ & Hsave).
  split; [exact Htwice |].
  rewrite (Hsave (EditItem.mk "hero_title" "Default title" text) eq_refl). reflexivity.
Defined.

(** X10. While no file read ends, a closed dialog holds no scratch value:
    in every state reached from the initial page by events other than the
    end of a read, if no edit is active then the scratch value is the
    empty string (what was typed is dropped at Cancel and at Save). *)
Theorem closed_dialog_has_no_scratch (es : list Event) :
  forallb (λ e, negb (is_loadend e)) es = true →
  editingItem (app (run es init)) = None → modal_value (run es init) = "".
Proof.
  assert (Hgen : ∀ ui,
            (editingItem (app ui) = None → modal_value ui = "") →
            forallb (λ e, negb (is_loadend e)) es = true →
            editingItem (app (run es ui)) = None → modal_value (run es ui) = "").
  { induction es as [|e es IH]; intros ui Hinv Hes; [exact Hinv |].
    simpl in Hes. apply andb_prop in Hes as [He Hes]. apply negb_true_iff in He.
    rewrite run_app_cons. apply IH; [| done].
    by apply step_closed_scratch. }
  apply Hgen. done.
Qed.

Lemma closed_dialog_has_no_scratch_witness :
  let es := [ClickToggle; ClickImage "exterior_img" DEFAULT_IMAGES.exterior;
             ModalChange "not-a-url"; FileChange (Some "data:image/png;base64,AAAA");
             ClickCancel] in
  editingItem (app (run es init)) = None ∧ modal_value (run es init) = "".
Proof.
  intros es. split; [reflexivity |].
  apply (closed_dialog_has_no_scratch es); reflexivity.
Defined.

(** X11. Opening from the closed dialog always seeds. In edit mode with no
    active edit, whatever the scratch value holds (a late file read may
    have written it), a click on an editable text or image that shows a
    string opens the editor on the key of the slot with that string, and
    the hero button opens it on [hero_img] with the value of the hero
    background; the scratch value of the dialog is exactly that value. *)
Theorem open_from_closed_seeds (ui : UI) :
  isEditMode (app ui) = true → editingItem (app ui) = None →
  (∀ id d shown,
     EditableText.currentText (content (app ui)) id d = JsString shown →
     step (ClickText id d) ui
     = mkUI (mkApp true (content (app ui)) (Some (EditItem.mk id shown text)))
            shown (pending ui)) ∧
  (∀ id d shown,
     EditableImage.currentSrc (content (app ui)) id d = JsString shown →
     step (ClickImage id d) ui
     = mkUI (mkApp true (content (app ui)) (Some (EditItem.mk id shown image)))
            shown (pending ui)) ∧
  (∃ shown,
     EditableImage.currentSrc (content (app ui)) "hero_img" DEFAULT_IMAGES.hero
     = JsString shown ∧
     step ClickHeroButton ui
     = mkUI (mkApp true (content (app ui)) (Some (EditItem.mk "hero_img" shown image)))
            shown (pending ui)).
Proof.
  intros Hedit Hclosed. split; [| split].
  - intros id d shown Hshown. rewrite (step_click_text _ _ _ _ Hedit Hclosed Hshown).
    unfold openEditor. by rewrite Hedit.
  - intros id d shown Hshown. rewrite (step_click_image _ _ _ _ Hedit Hclosed Hshown).
    unfold openEditor. by rewrite Hedit.
  - exists (js_or (content (app ui) !! "hero_img") DEFAULT_IMAGES.hero). split.
    + unfold EditableImage.currentSrc, js_get.
      destruct (content (app ui) !! "hero_img") as [[|c s]|]; reflexivity.
    + erewrite step_opens; [| done |].
      * unfold openEditor. rewrite Hedit. reflexivity.
      * simpl. by rewrite Hedit.
Qed.

Lemma open_from_closed_seeds_witness :
  let ui := run [ClickToggle; ClickImage "exterior_img" DEFAULT_IMAGES.exterior;
                 FileChange (Some "data:image/png;base64,AAAA"); ClickCancel; Loadend 0] init in
  modal_value ui = "data:image/png;base64,AAAA" ∧
  modal_value (step (ClickText "hero_title" "Default title") ui) = "Default title".
Proof.
  intros ui. split; [reflexivity |].
  pose proof (open_from_closed_seeds ui eq_refl eq_refl) as (Htext & _ & _).
  by rewrite (Htext "hero_title" "Default title" "Default title" eq_refl).
Defined.

(** X12. Opening a second editor while one is open re-seeds the dialog
    exactly when the value differs: a call of [openEditor] whose initial
    value is not the one of the open item replaces the item and sets the
    scratch value to the new initial value. *)
Theorem second_open_with_new_value (ui : UI) (item : EditItem.t) (id v : string) (ty : EditType) :
  editingItem (app ui) = Some item → v ≠ EditItem.value item →
  step (CallOpenEditor id v ty) ui = mkUI (openEditor id v ty (app ui)) v (pending ui).
Proof.
  intros Hitem Hv. unfold step, useEffect_seed. simpl handle.
  rewrite decide_False.
  - unfold with_app. simpl app. simpl pending. f_equal. exact (js_or_self v).
  - assert (H1 : initialValue (app ui) = EditItem.value item).
    { unfold initialValue. rewrite Hitem. apply js_or_self. }
    assert (H2 : initialValue (openEditor id v ty (app ui)) = v) by apply js_or_self.
    unfold effect_deps, with_app. simpl app. rewrite H1, H2. intros [=]. congruence.
Qed.

Lemma second_open_with_new_value_witness :
  let ui := run [ClickToggle; ClickText "hero_tag" "Tag"; ModalChange "typed for hero_tag"] init in
  modal_value (step (CallOpenEditor "hero_title" "Default title" text) ui) = "Default title".
Proof.
  intros ui.
  assert (Hne : "Default title" ≠ "Tag") by discriminate.
  by rewrite (second_open_with_new_value ui (EditItem.mk "hero_tag" "Tag" text)
                "hero_title" "Default title" text eq_refl Hne).
Defined.

(** X13. A reset does not cancel an open edit. With the dialog open in
    edit mode, a confirmed reset empties the store and leaves the dialog
    and its scratch value as they are; Save pressed afterwards leaves the
    store with exactly one override, the scratch value at the key of the
    edit. *)
Theorem reset_keeps_open_edit (ui : UI) (item : EditItem.t) :
  isEditMode (app ui) = true → editingItem (app ui) = Some item →
  step (ClickReset true) ui = mkUI (mkApp true ∅ (Some item)) (modal_value ui) (pending ui) ∧
  run [ClickReset true; ClickSave] ui
  = mkUI (mkApp true {[ EditItem.id item := modal_value ui ]} None) "" (pending ui).
Proof.
  intros Hedit Hitem.
  assert (Hreset : step (ClickReset true) ui
                   = mkUI (mkApp true ∅ (Some item)) (modal_value ui) (pending ui)).
  { unfold step. simpl handle. rewrite Hedit. unfold with_app, resetContent.
    rewrite Hedit, Hitem. apply useEffect_seed_same.
    unfold effect_deps, initialValue, isOpen. simpl. by rewrite Hitem. }
  split; [exact Hreset |].
  unfold run. simpl foldl. rewrite Hreset.
  by erewrite step_save by reflexivity.
Qed.

Lemma reset_keeps_open_edit_witness :
  let ui := run [ClickToggle; ClickText "hero_tag" "Tag"; ModalChange "New tag"]
                (with_app (updateContent "hero_title" "New Title") init) in
  content (app (run [ClickReset true; ClickSave] ui)) = {[ "hero_tag" := "New tag" ]}.
Proof.
  intros ui.
  pose proof (reset_keeps_open_edit ui (EditItem.mk "hero_tag" "Tag" text) eq_refl eq_refl)
    as [_ Hrun].
  by rewrite Hrun.
Defined.

(** ** The keys of a section heading *)

Section Keys.
Implicit Types (s t p q : string).

Lemma string_length_app s t : String.length (s ++ t) = (String.length s + String.length t)%nat.
Proof.
  induction s as [|c s IH]; [done |].
  rewrite string_app_cons. simpl. by rewrite IH.
Qed.

(** Two splits of one string at the same distance from its end agree. *)
Lemma string_app_inj_length s1 s2 t1 t2 :
  s1 ++ t1 = s2 ++ t2 → String.length t1 = String.length t2 → s1 = s2 ∧ t1 = t2.
Proof.
  revert s2. induction s1 as [|c s1 IH]; intros [|c2 s2] Heq Hlen.
  - done.
  - exfalso. apply (f_equal String.length) in Heq.
    rewrite string_app_nil, string_app_cons in Heq. simpl in Heq.
    rewrite string_length_app in Heq. lia.
  - exfalso. apply (f_equal String.length) in Heq.
    rewrite string_app_nil, string_app_cons in Heq. simpl in Heq.
    rewrite string_length_app in Heq. lia.
  - rewrite !string_app_cons in Heq. injection Heq as -> Heq.
    destruct (IH _ Heq Hlen) as [-> ->]. done.
Qed.
End Keys.

(** X14. The two slots of a section heading never share a key, and
    headings with different prefixes have different keys: the title key of
    one heading is never the subtitle key of any heading, and both key
    functions are injective. So an edit of a title leaves every subtitle
    on the page as it was. *)
Theorem section_heading_keys (p q : string) :
  SectionHeading.titleId p ≠ SectionHeading.subtitleId q ∧
  (SectionHeading.titleId p = SectionHeading.titleId q → p = q) ∧
  (SectionHeading.subtitleId p = SectionHeading.subtitleId q → p = q) ∧
  (∀ (st : App) (v d : string),
     EditableText.currentText (content (updateContent (SectionHeading.titleId p) v st))
       (SectionHeading.subtitleId q) d
     = EditableText.currentText (content st) (SectionHeading.subtitleId q) d).
Proof.
  assert (Hne : SectionHeading.titleId p ≠ SectionHeading.subtitleId q).
  { unfold SectionHeading.titleId, SectionHeading.subtitleId. intros Heq.
    change "_subtitle" with ("_su" ++ "btitle") in Heq.
    rewrite <- string_app_assoc in Heq.
    apply string_app_inj_length in Heq as [_ Heq]; [discriminate Heq | reflexivity]. }
  split; [exact Hne |]. split; [| split].
  - unfold SectionHeading.titleId. intros Heq.
    by apply string_app_inj_length in Heq as [-> _].
  - unfold SectionHeading.subtitleId. intros Heq.
    by apply string_app_inj_length in Heq as [-> _].
  - intros st v d. unfold EditableText.currentText, js_get, updateContent. simpl.
    by rewrite lookup_insert_ne.
Qed.

(** ** Navigation *)

Section Navigation.
Implicit Types (st : AppContent) (p : Page) (e : NavEvent).

Lemma currentPage_setPage p st : currentPage (setPage p st) = p.
Proof. unfold setPage. by case_decide. Qed.

Lemma menuOpen_setPage p st : menuOpen (setPage p st) = menuOpen st.
Proof. unfold setPage. by case_decide. Qed.

Lemma setPage_mounted p st : mounted_ok st → mounted_ok (setPage p st).
Proof.
  unfold mounted_ok, setPage. intros Hok.
  case_decide as Hp; [done |]. simpl.
  case_decide as Hc; split; intros H; try done.
Qed.

Lemma nav_step_mounted e st : mounted_ok st → mounted_ok (nav_step e st).
Proof.
  intros Hok. destruct e; simpl.
  - by apply setPage_mounted.
  - destruct (Header.navItems !! i); [by apply setPage_mounted | done].
  - done.
  - destruct (menuOpen st); [| done].
    destruct (Header.navItems !! i) as [item|]; [| done].
    pose proof (setPage_mounted item.1 st Hok) as Hok'.
    unfold mounted_ok in *. simpl. done.
  - destruct (Footer.links !! i); [by apply setPage_mounted | done].
  - destruct (_ && _); [by apply setPage_mounted | done].
  - unfold mounted_ok in *. destruct (contactPage st) as [c|] eqn:Hc; simpl.
    + split; [intros _; apply Hok; eauto | eauto].
    + by rewrite Hc.
Qed.
End Navigation.

(** X15. Every page has exactly one item in the navigation: for each page
    exactly one nav button is highlighted, and there is an item whose
    click, in the desktop bar or in the open mobile menu, displays that
    page from any state; the click in the mobile menu also closes the
    menu. *)
Theorem every_page_has_one_nav_item (p : Page) :
  length (filter (λ item, Header.highlighted p item = true) Header.navItems) = 1%nat ∧
  ∃ i : nat,
    (fst <$> Header.navItems !! i) = Some p ∧
    ∀ st : AppContent,
      currentPage (nav_step (ClickNav i) st) = p ∧
      (menuOpen st = true →
         currentPage (nav_step (ClickMobileNav i) st) = p ∧
         menuOpen (nav_step (ClickMobileNav i) st) = false).
Proof.
  split; [by destruct p |].
  destruct p;
    [exists 0%nat | exists 1%nat | exists 2%nat | exists 3%nat | exists 4%nat];
    (split; [reflexivity |]); intros st; simpl;
    (split; [apply currentPage_setPage |]); intros ->; simpl;
    (split; [apply currentPage_setPage | reflexivity]).
Qed.

(** X16. The contact form exists exactly while the contact page is
    displayed: in every state reached from the first render by any
    navigation and form events, the state of [ContactPage] is mounted if
    and only if [currentPage] is [contact]. *)
Theorem contact_form_mounted_on_contact_page (es : list NavEvent) :
  is_Some (contactPage (nav_run es AppContent_init))
  ↔ currentPage (nav_run es AppContent_init) = contact.
Proof.
  assert (Hgen : ∀ st, mounted_ok st → mounted_ok (nav_run es st)).
  { induction es as [|e es IH]; intros st Hok; [done |].
    simpl. apply IH. by apply nav_step_mounted. }
  apply Hgen. unfold mounted_ok. simpl. split; [by intros [? [=]] | done].
Qed.

(** X17. Leaving the contact page drops the form. From the contact page,
    whatever the form holds (also a submitted reservation), going to the
    main page and back to the contact page shows the initial, empty form;
    clicking the nav item of the contact page while on it keeps the form. *)
Theorem navigation_resets_contact_form (st : AppContent) (c : ContactPage.State) :
  currentPage st = contact → contactPage st = Some c →
  nav_run [ClickLogo; ClickNav 4] st
  = mkAppContent contact (menuOpen st) (Some ContactPage.initial) ∧
  contactPage (nav_step ClickLogo st) = None ∧
  nav_step (ClickNav 4) st = st.
Proof.
  intros Hpage Hc. unfold nav_run. simpl. unfold setPage. simpl.
  rewrite Hpage. simpl. done.
Qed.

Lemma navigation_resets_contact_form_witness :
  let st := nav_run [ClickNav 4; OnContact (ContactPage.ChangeName "Kim");
                     OnContact (ContactPage.ChangePhone "010-1234-5678");
                     OnContact ContactPage.Submit] AppContent_init in
  contactPage st
  = Some (ContactPage.mkState (ContactPage.mkFormData "Kim" "010-1234-5678" "" "84A") true) ∧
  contactPage (nav_run [ClickLogo; ClickNav 4] st) = Some ContactPage.initial.
Proof.
  intros st. split; [reflexivity |].
  pose proof (navigation_resets_contact_form st
                (ContactPage.mkState (ContactPage.mkFormData "Kim" "010-1234-5678" "" "84A") true)
                eq_refl eq_refl) as [Hrun _].
  by rewrite Hrun.
Defined.

(** ** The contact form *)

Section Contact.
Import ContactPage.
Implicit Types (st : ContactPage.State) (e : ContactPage.Event).

Lemma contact_step_type e st :
  type (formData st) ∈ types → type (formData (ContactPage.step e st)) ∈ types.
Proof.
  intros Hin. destruct e; simpl; destruct (submitted st); simpl; try done.
  - destruct (types !! i) as [t|] eqn:Ht; simpl; [| done].
    apply list_elem_of_lookup. by exists i.
  - by destruct (required_filled (formData st)).
Qed.

Lemma contact_step_filled e st :
  (submitted st = true → required_filled (formData st) = true) →
  submitted (ContactPage.step e st) = true →
  required_filled (formData (ContactPage.step e st)) = true.
Proof.
  intros Hinv. destruct e; simpl; destruct (submitted st) eqn:Hs; simpl; try done; auto.
  - destruct (types !! i); simpl; [done | by rewrite Hs].
  - destruct (required_filled (formData st)) eqn:Hf; simpl; [done | by rewrite Hs].
  - by rewrite Hs.
Qed.
End Contact.

(** X18. The apartment type of the form is always one of the four offered:
    in every state reached from the initial form by any events, the [type]
    field is a member of the list of type buttons. *)
Theorem contact_type_is_offered (es : list ContactPage.Event) :
  ContactPage.type (ContactPage.formData (ContactPage.run es ContactPage.initial))
  ∈ ContactPage.types.
Proof.
  assert (Hgen : ∀ st,
            ContactPage.type (ContactPage.formData st) ∈ ContactPage.types →
            ContactPage.type (ContactPage.formData (ContactPage.run es st))
            ∈ ContactPage.types).
  { induction es as [|e es IH]; intros st Hin; [done |].
    simpl. apply IH. by apply contact_step_type. }
  apply Hgen. simpl. unfold ContactPage.types. set_solver.
Qed.

(** X19. A submitted reservation always carries a name and a phone number:
    in every state reached from the initial form, if the form is submitted
    then neither of the two required fields is empty. *)
Theorem submitted_form_is_filled (es : list ContactPage.Event) :
  ContactPage.submitted (ContactPage.run es ContactPage.initial) = true →
  ContactPage.name (ContactPage.formData (ContactPage.run es ContactPage.initial)) ≠ "" ∧
  ContactPage.phone (ContactPage.formData (ContactPage.run es ContactPage.initial)) ≠ "".
Proof.
  assert (Hgen : ∀ st,
            (ContactPage.submitted st = true →
             ContactPage.required_filled (ContactPage.formData st) = true) →
            ContactPage.submitted (ContactPage.run es st) = true →
            ContactPage.required_filled (ContactPage.formData (ContactPage.run es st)) = true).
  { induction es as [|e es IH]; intros st Hinv; [exact Hinv |].
    simpl. apply IH. by apply contact_step_filled. }
  intros Hsub. specialize (Hgen ContactPage.initial (λ H, ltac:(discriminate H)) Hsub).
  unfold ContactPage.required_filled in Hgen.
  apply andb_prop in Hgen as [Hn Hp].
  apply negb_true_iff, bool_decide_eq_false in Hn, Hp. done.
Qed.

Lemma submitted_form_is_filled_witness :
  let es := [ContactPage.Submit; ContactPage.ChangeName "Kim"; ContactPage.Submit;
             ContactPage.ChangePhone "010-1234-5678"; ContactPage.ClickType 2;
             ContactPage.Submit; ContactPage.ChangeName ""] in
  ContactPage.run es ContactPage.initial
  = ContactPage.mkState (ContactPage.mkFormData "Kim" "010-1234-5678" "" "107") true ∧
  ContactPage.name (ContactPage.formData (ContactPage.run es ContactPage.initial)) ≠ "".
Proof.
  intros es. split; [reflexivity |].
  exact (proj1 (submitted_form_is_filled es eq_refl)).
Defined.

(** X20. Submitting keeps what was entered, and a submitted form is
    frozen. With name and phone filled in, the submit event marks the form
    as submitted and leaves its data as they are; while it is submitted no
    event but the button for a new reservation changes anything; that
    button brings back the form with the data entered before. *)
Theorem submit_keeps_form_data (st : ContactPage.State) :
  ContactPage.submitted st = false →
  ContactPage.name (ContactPage.formData st) ≠ "" →
  ContactPage.phone (ContactPage.formData st) ≠ "" →
  ContactPage.step ContactPage.Submit st = ContactPage.mkState (ContactPage.formData st) true ∧
  (∀ e, e ≠ ContactPage.ClickAgain →
     ContactPage.step e (ContactPage.step ContactPage.Submit st)
     = ContactPage.step ContactPage.Submit st) ∧
  ContactPage.step ContactPage.ClickAgain (ContactPage.step ContactPage.Submit st) = st.
Proof.
  intros Hs Hn Hp.
  assert (Hsubmit : ContactPage.step ContactPage.Submit st
                    = ContactPage.mkState (ContactPage.formData st) true).
  { simpl. rewrite Hs. unfold ContactPage.required_filled.
    by rewrite !bool_decide_eq_false_2. }
  rewrite Hsubmit. split; [done |]. split.
  - intros e He. by destruct e.
  - destruct st as [f s]. simpl in *. by subst s.
Qed.

Lemma submit_keeps_form_data_witness :
  let st := ContactPage.mkState (ContactPage.mkFormData "Kim" "010-1234-5678" "" "84B") false in
  ContactPage.step ContactPage.ClickAgain (ContactPage.step ContactPage.Submit st) = st.
Proof.
  intros st.
  assert (Hn : "Kim" ≠ "") by discriminate.
  assert (Hp : "010-1234-5678" ≠ "") by discriminate.
  exact (proj2 (proj2 (submit_keeps_form_data st eq_refl Hn Hp))).
Defined.
